(** * Verification of the LLM-vs-LLM debate demo (OpenAI-vs-Ollama)

    Shallow embedding of:
    - [src/unnamed/part_002] (types.ts): the [ChatMsg] type;
    - [src/unnamed/part_001] (POST /api/openai-turn): Adapter A;
    - [src/unnamed/part_000] (POST /api/llama-turn): Adapter B;
    - [src/app/page.tsx]: the turn controller (React state, [nextTurn],
      the auto-continuation effect, [reset], [stopDebate],
      [startConversation], [handleKeyPress]), the derived [canExport] and
      [title], and [exportConversation] (JSON and TXT).

    JavaScript strings are modelled as Rocq [string]s, i.e. sequences of
    8-bit code units; code units above 255 are outside the model. *)

From Stdlib Require Import Ascii String List Bool Arith Lia.
Import ListNotations.
Open Scope string_scope.
Set Warnings "-register-all".

(** ** Characters and string helpers *)

Definition dq : ascii := "034"%char.      (* the double quote *)
Definition bsl : ascii := "092"%char.     (* the backslash *)
Definition lf : ascii := "010"%char.      (* line feed *)

Definition chr (c : ascii) : string := String c EmptyString.
Definition nl : string := chr lf.

(** [String.prototype.trim]: WhiteSpace and LineTerminator code units
    among 0..255: TAB, LF, VT, FF, CR, SPACE and NO-BREAK SPACE. *)
Definition is_js_ws (c : ascii) : bool :=
  match nat_of_ascii c with
  | 9 | 10 | 11 | 12 | 13 | 32 | 160 => true
  | _ => false
  end.

Fixpoint trim_start (s : string) : string :=
  match s with
  | EmptyString => EmptyString
  | String c r => if is_js_ws c then trim_start r else s
  end.

Fixpoint trim_end (s : string) : string :=
  match s with
  | EmptyString => EmptyString
  | String c r =>
      let r' := trim_end r in
      if (r' =? EmptyString) && is_js_ws c then EmptyString else String c r'
  end.

Definition trim (s : string) : string := trim_end (trim_start s).

(** [String.prototype.toUpperCase] on the ASCII letters; it is only applied
    to the speaker labels ["openai"] and ["llama"]. *)
Definition upper_char (c : ascii) : ascii :=
  let n := nat_of_ascii c in
  if (Nat.leb 97 n) && (Nat.leb n 122) then ascii_of_nat (n - 32) else c.

Fixpoint to_upper (s : string) : string :=
  match s with
  | EmptyString => EmptyString
  | String c r => String (upper_char c) (to_upper r)
  end.

(** JavaScript's [a || b] on strings: the empty string is falsy. *)
Definition js_or (a b : string) : string := if a =? EmptyString then b else a.

(** [a ?? b] on an optional value. *)
Definition nullish {A} (a : option A) (b : A) : A :=
  match a with Some x => x | None => b end.

(** [Array.prototype.join]. *)
Fixpoint join (sep : string) (l : list string) : string :=
  match l with
  | [] => EmptyString
  | [x] => x
  | x :: r => x ++ sep ++ join sep r
  end.

(** Decimal rendering of a number, as in a template literal [`${n}`]. *)
Fixpoint digits_aux (fuel n : nat) (acc : string) : string :=
  match fuel with
  | 0 => acc
  | S f =>
      let acc' := String (ascii_of_nat (48 + n mod 10)) acc in
      if Nat.ltb n 10 then acc' else digits_aux f (n / 10) acc'
  end.

Definition show_nat (n : nat) : string := digits_aux (S n) n EmptyString.

(** ** JSON values, [JSON.stringify] and [JSON.parse]

    The values the program serialises contain strings, arrays and objects
    only; numbers are not modelled. *)

Inductive json : Type :=
| JNull
| JBool (b : bool)
| JStr (s : string)
| JArr (l : list json)
| JObj (l : list (string * json)).

(** Section JsonInd: induction through the nested lists. *)
Section JsonInd.
Variable P : json -> Prop.
Hypothesis HNull : P JNull.
Hypothesis HBool : forall b, P (JBool b).
Hypothesis HStr : forall s, P (JStr s).
Hypothesis HArr : forall l, Forall P l -> P (JArr l).
Hypothesis HObj : forall l, Forall (fun kv => P (snd kv)) l -> P (JObj l).

Fixpoint json_ind' (v : json) : P v :=
  match v with
  | JNull => HNull
  | JBool b => HBool b
  | JStr s => HStr s
  | JArr l =>
      HArr l ((fix go (l : list json) : Forall P l :=
                 match l with
                 | [] => Forall_nil _
                 | x :: r => Forall_cons _ (json_ind' x) (go r)
                 end) l)
  | JObj l =>
      HObj l ((fix go (l : list (string * json))
                 : Forall (fun kv => P (snd kv)) l :=
                 match l with
                 | [] => Forall_nil _
                 | (k, x) :: r => Forall_cons (P:=fun kv => P (snd kv)) (k, x) (json_ind' x) (go r)
                 end) l)
  end.
End JsonInd.

(** QuoteJSONString (ECMA-262): the escape of one code unit. *)
Definition hex_digit (n : nat) : ascii :=
  if Nat.ltb n 10 then ascii_of_nat (48 + n) else ascii_of_nat (87 + n).

Definition escape_char (c : ascii) : string :=
  match nat_of_ascii c with
  | 8 => String bsl "b"
  | 9 => String bsl "t"
  | 10 => String bsl "n"
  | 12 => String bsl "f"
  | 13 => String bsl "r"
  | 34 => String bsl (chr dq)
  | 92 => String bsl (chr bsl)
  | n =>
      if Nat.ltb n 32
      then String bsl (String "u" (String "0" (String "0"
             (String (hex_digit (n / 16)) (chr (hex_digit (n mod 16)))))))
      else chr c
  end.

Fixpoint escape (s : string) : string :=
  match s with
  | EmptyString => EmptyString
  | String c r => escape_char c ++ escape r
  end.

Definition quote (s : string) : string := String dq (escape s ++ chr dq).

Fixpoint join_items {A} (f : A -> string) (pre : string) (l : list A) : string :=
  match l with
  | [] => EmptyString
  | y :: r => pre ++ f y ++ join_items f pre r
  end.

Definition brk (gap : string) : string := if gap =? EmptyString then EmptyString else nl.
Definition colsp (gap : string) : string := if gap =? EmptyString then EmptyString else " ".

(** SerializeJSONProperty with the indentation [gap] and the current
    indentation [ind]. *)
Fixpoint ser (gap ind : string) (v : json) : string :=
  match v with
  | JNull => "null"
  | JBool true => "true"
  | JBool false => "false"
  | JStr s => quote s
  | JArr [] => "[]"
  | JArr (x :: l) =>
      "[" ++ brk gap ++ (ind ++ gap) ++ ser gap (ind ++ gap) x
      ++ join_items (ser gap (ind ++ gap)) ("," ++ brk gap ++ (ind ++ gap)) l
      ++ brk gap ++ ind ++ "]"
  | JObj [] => "{}"
  | JObj ((k, x) :: l) =>
      "{" ++ brk gap ++ (ind ++ gap)
      ++ quote k ++ ":" ++ colsp gap ++ ser gap (ind ++ gap) x
      ++ join_items (fun kv => quote (fst kv) ++ ":" ++ colsp gap ++ ser gap (ind ++ gap) (snd kv))
                    ("," ++ brk gap ++ (ind ++ gap)) l
      ++ brk gap ++ ind ++ "}"
  end.

(** [JSON.stringify(v)] and [JSON.stringify(v, null, 2)]. *)
Definition stringify (v : json) : string := ser EmptyString EmptyString v.
Definition stringify2 (v : json) : string := ser "  " EmptyString v.

(** JSON.parse: whitespace, string literals, arrays, objects, literals. *)
Definition is_json_ws (c : ascii) : bool :=
  match nat_of_ascii c with
  | 9 | 10 | 13 | 32 => true
  | _ => false
  end.

Fixpoint skip_ws (s : string) : string :=
  match s with
  | EmptyString => EmptyString
  | String c r => if is_json_ws c then skip_ws r else s
  end.

Definition hex_val (c : ascii) : option nat :=
  let n := nat_of_ascii c in
  if (Nat.leb 48 n) && (Nat.leb n 57) then Some (n - 48)
  else if (Nat.leb 97 n) && (Nat.leb n 102) then Some (n - 87)
  else if (Nat.leb 65 n) && (Nat.leb n 70) then Some (n - 55)
  else None.

Definition hex4 (a b c d : ascii) : option nat :=
  match hex_val a, hex_val b, hex_val c, hex_val d with
  | Some x, Some y, Some z, Some w => Some (((x * 16 + y) * 16 + z) * 16 + w)
  | _, _, _, _ => None
  end.

Definition simple_escape (e : ascii) : option ascii :=
  match nat_of_ascii e with
  | 34 => Some dq
  | 92 => Some bsl
  | 47 => Some "/"%char
  | 98 => Some "008"%char
  | 102 => Some "012"%char
  | 110 => Some "010"%char
  | 114 => Some "013"%char
  | 116 => Some "009"%char
  | _ => None
  end.

Definition cons_res (c : ascii) (r : option (string * string)) : option (string * string) :=
  match r with
  | Some (t, rest) => Some (String c t, rest)
  | None => None
  end.

(** The body of a string literal, after its opening quote; returns the
    decoded string and the input after the closing quote.  A [\u] escape
    above 255 is outside the 8-bit model. *)
Fixpoint pstr (s : string) : option (string * string) :=
  match s with
  | EmptyString => None
  | String c r =>
      if Ascii.eqb c dq then Some (EmptyString, r)
      else if Ascii.eqb c bsl then
        match r with
        | EmptyString => None
        | String e r' =>
            match simple_escape e with
            | Some c' => cons_res c' (pstr r')
            | None =>
                if Ascii.eqb e "u"%char then
                  match r' with
                  | String h1 (String h2 (String h3 (String h4 r''))) =>
                      match hex4 h1 h2 h3 h4 with
                      | Some code =>
                          if Nat.ltb code 256 then cons_res (ascii_of_nat code) (pstr r'')
                          else None
                      | None => None
                      end
                  | _ => None
                  end
                else None
            end
        end
      else if Nat.ltb (nat_of_ascii c) 32 then None
      else cons_res c (pstr r)
  end.

Fixpoint strip_prefix (p s : string) : option string :=
  match p, s with
  | EmptyString, _ => Some s
  | String a p', String b s' => if Ascii.eqb a b then strip_prefix p' s' else None
  | String _ _, EmptyString => None
  end.

Fixpoint pv (n : nat) (s : string) {struct n} : option (json * string) :=
  match n with
  | 0 => None
  | S n' =>
      match skip_ws s with
      | EmptyString => None
      | String c r =>
          if Ascii.eqb c dq then
            match pstr r with
            | Some (t, r') => Some (JStr t, r')
            | None => None
            end
          else if Ascii.eqb c "["%char then
            match skip_ws r with
            | String c1 r1 =>
                if Ascii.eqb c1 "]"%char then Some (JArr [], r1)
                else match pelems n' r with
                     | Some (l, r2) => Some (JArr l, r2)
                     | None => None
                     end
            | EmptyString => None
            end
          else if Ascii.eqb c "{"%char then
            match skip_ws r with
            | String c1 r1 =>
                if Ascii.eqb c1 "}"%char then Some (JObj [], r1)
                else match pmembers n' r with
                     | Some (l, r2) => Some (JObj l, r2)
                     | None => None
                     end
            | EmptyString => None
            end
          else
            match strip_prefix "true" (String c r) with
            | Some r' => Some (JBool true, r')
            | None =>
                match strip_prefix "false" (String c r) with
                | Some r' => Some (JBool false, r')
                | None =>
                    match strip_prefix "null" (String c r) with
                    | Some r' => Some (JNull, r')
                    | None => None
                    end
                end
            end
      end
  end
with pelems (n : nat) (s : string) {struct n} : option (list json * string) :=
  match n with
  | 0 => None
  | S n' =>
      match pv n' s with
      | Some (v, r) =>
          match skip_ws r with
          | String c r' =>
              if Ascii.eqb c ","%char then
                match pelems n' r' with
                | Some (l, r'') => Some (v :: l, r'')
                | None => None
                end
              else if Ascii.eqb c "]"%char then Some ([v], r')
              else None
          | EmptyString => None
          end
      | None => None
      end
  end
with pmembers (n : nat) (s : string) {struct n} : option (list (string * json) * string) :=
  match n with
  | 0 => None
  | S n' =>
      match skip_ws s with
      | String c r =>
          if Ascii.eqb c dq then
            match pstr r with
            | Some (k, r1) =>
                match skip_ws r1 with
                | String c2 r2 =>
                    if Ascii.eqb c2 ":"%char then
                      match pv n' r2 with
                      | Some (v, r3) =>
                          match skip_ws r3 with
                          | String c4 r4 =>
                              if Ascii.eqb c4 ","%char then
                                match pmembers n' r4 with
                                | Some (l, r5) => Some ((k, v) :: l, r5)
                                | None => None
                                end
                              else if Ascii.eqb c4 "}"%char then Some ([(k, v)], r4)
                              else None
                          | EmptyString => None
                          end
                      | None => None
                      end
                    else None
                | EmptyString => None
                end
            | None => None
            end
          else None
      | EmptyString => None
      end
  end.

(** Strings made of JSON whitespace only. *)
Fixpoint ws_only (w : string) : bool :=
  match w with
  | EmptyString => true
  | String c r => is_json_ws c && ws_only r
  end.

(** A bound on the recursion depth [pv] needs for a value. *)
Fixpoint jsize (v : json) : nat :=
  match v with
  | JArr l => S (list_sum (map (fun x => S (jsize x)) l))
  | JObj l => S (list_sum (map (fun kv => S (jsize (snd kv))) l))
  | _ => 1
  end.


(** An object member as [ser] prints it. *)
Definition memb (gap ind : string) (kv : string * json) : string :=
  quote (fst kv) ++ ":" ++ colsp gap ++ ser gap (ind ++ gap) (snd kv).

Arguments memb : simpl never.

(** The round-trip property of one value. *)
Definition Pser (v : json) : Prop :=
  forall gap ind rest n, ws_only gap = true -> ws_only ind = true -> jsize v <= n ->
    pv n (ser gap ind v ++ rest) = Some (v, rest).

(** [JSON.parse(text)]: one value, then only whitespace. *)
Definition parse_json (s : string) : option json :=
  match pv (String.length s) s with
  | Some (v, r) => if skip_ws r =? EmptyString then Some v else None
  | None => None
  end.

(** Property lookup on a parsed object: a later duplicate key wins. *)
Fixpoint lookup (k : string) (ps : list (string * json)) : option json :=
  match ps with
  | [] => None
  | (k', v) :: r =>
      match lookup k r with
      | Some x => Some x
      | None => if k =? k' then Some v else None
      end
  end.

(** ** The message type (types.ts) *)

Inductive speaker : Type := openai | llama.

Definition speaker_label (s : speaker) : string :=
  match s with openai => "openai" | llama => "llama" end.

Definition speaker_of_label (s : string) : option speaker :=
  if s =? "openai" then Some openai
  else if s =? "llama" then Some llama
  else None.

Record ChatMsg : Type := mkMsg { msg_speaker : speaker; msg_content : string }.

(** The JSON body of an adapter request, [{ history, topic }]. *)
Record turn_body : Type := mkBody {
  body_history : option (list ChatMsg);
  body_topic : option string }.

(** Environment variables read by the route handlers. *)
Record env : Type := mkEnv {
  OPENAI_MODEL : option string;
  OLLAMA_BASE_URL : option string;
  OLLAMA_MODEL : option string }.

(** A chat message of an outbound request: [{ role, content }]. *)
Record role_msg : Type := mkRole { role : string; rcontent : string }.

(** The result a route handler returns: [NextResponse.json(msg)] or
    [NextResponse.json({ error }, { status })]. *)
Inductive api_result : Type :=
| ApiOk (m : ChatMsg)
| ApiErr (status : nat) (error : string).

Definition placeholder : string := "(sin respuesta)".

(** Labelled transcript line [`${m.speaker.toUpperCase()}: ${m.content}`]. *)
Definition msg_line (m : ChatMsg) : string :=
  to_upper (speaker_label (msg_speaker m)) ++ ": " ++ msg_content m.

(** ** Adapter A: POST /api/openai-turn (part_001) *)

Definition transcriptA (h : option (list ChatMsg)) : string :=
  match h with
  | Some ((_ :: _) as l) => join nl (map msg_line l)
  | _ => EmptyString
  end.

Definition systemA : string :=
  "Eres un LLM participando en una conversación alternada con otro LLM. "
  ++ "Responde en 2-4 frases siendo muy rádical sobre el tópico que se pide. No hagas preguntas al usuario; habla al otro modelo.".

Definition user_contentA (b : turn_body) : string :=
  let transcript := transcriptA (body_history b) in
  if Nat.ltb 0 (String.length transcript)
  then "Conversación hasta ahora:" ++ nl ++ transcript ++ nl ++ nl
       ++ "Ahora te toca hablar. Continúa."
  else "Inicia una conversación con otro LLM sobre este tema: "
       ++ chr dq ++ nullish (body_topic b) "tecnología" ++ chr dq ++ ".".

Record requestA : Type := mkReqA { reqA_model : string; reqA_input : list role_msg }.

Definition buildA (e : env) (b : turn_body) : requestA :=
  mkReqA (nullish (OPENAI_MODEL e) "gpt-4.1-mini")
         [mkRole "system" systemA; mkRole "user" (user_contentA b)].

(** What [client.responses.create] does: it throws (non-success status,
    transport failure; [err?.message] may be absent) or returns a response
    whose [output_text] may be absent. *)
Inductive upA : Type :=
| UpAThrow (message : option string)
| UpAOk (output_text : option string).

Definition finishA (u : upA) : api_result :=
  match u with
  | UpAThrow m => ApiErr 500 (nullish m "OpenAI error")
  | UpAOk t =>
      let text := match t with
                  | Some x => js_or (trim x) placeholder
                  | None => placeholder
                  end in
      ApiOk (mkMsg openai text)
  end.

Definition adapterA (e : env) (b : turn_body) (u : upA) : requestA * api_result :=
  (buildA e b, finishA u).

(** ** Adapter B: POST /api/llama-turn (part_000) *)

Record requestB : Type := mkReqB {
  reqB_url : string; reqB_model : string; reqB_messages : list role_msg; reqB_stream : bool }.

Definition systemB : string :=
  "Eres un LLM hablando con otro LLM, ten en cuenta que eres muy pasota y eres muy feliz en la vida sin darle mucha importancia a las cosas. Responde en 2-4 frases. "
  ++ "No hables como si fueras un humano.".

Definition messagesB (h : option (list ChatMsg)) : list role_msg :=
  (mkRole "system" systemB
   :: map (fun m => mkRole "assistant" (msg_line m)) (nullish h [])
   ++ [mkRole "user" "Ahora te toca responder. Continúa la conversación."])%list.

(** Only [history] is destructured from the request body. *)
Definition buildB (e : env) (b : turn_body) : requestB :=
  let history := body_history b in
  let baseUrl := nullish (OLLAMA_BASE_URL e) "http://localhost:11434" in
  let model := nullish (OLLAMA_MODEL e) "llama3" in
  mkReqB (baseUrl ++ "/api/chat") model (messagesB history) false.

(** What [fetch(`${baseUrl}/api/chat`)] yields: a response with [!r.ok]
    (status and body text), a successful response whose JSON has an optional
    [message.content], or a thrown error. *)
Inductive upB : Type :=
| UpBNotOk (status : nat) (txt : string)
| UpBOk (content : option string)
| UpBThrow (message : option string).

Definition finishB (u : upB) : api_result :=
  match u with
  | UpBNotOk st txt => ApiErr 500 ("Ollama error " ++ show_nat st ++ ": " ++ txt)
  | UpBOk c => ApiOk (mkMsg llama (js_or (trim (nullish c EmptyString)) placeholder))
  | UpBThrow m => ApiErr 500 (nullish m "Ollama error")
  end.

Definition adapterB (e : env) (b : turn_body) (u : upB) : requestB * api_result :=
  (buildB e b, finishB u).

(** ** The turn controller (page.tsx)

    React state of [Home], plus the requests whose [await fetch] has not
    returned yet.  Each request keeps what the [nextTurn] closure read when
    it was called: the [turn] (its endpoint) and the [{ history, topic }]
    body.  State updates queued in one handler are applied together
    (automatic batching); updates written as [x => ...] apply to the state
    at commit time. *)

Record flight : Type := mkFlight { fl_turn : speaker; fl_body : turn_body }.

Record state : Type := mkState {
  topic : string;
  history : list ChatMsg;
  turn : speaker;
  loading : bool;
  error : option string;
  isRunning : bool;
  roundCount : nat;
  showExport : bool;
  inflight : list flight }.

Definition maxRounds : nat := 10.

Definition init_state : state :=
  mkState "Impacto de la IA en la educación" [] openai false None false 0 false [].

Definition flip (t : speaker) : speaker :=
  match t with openai => llama | llama => openai end.

(** [reset()]. *)
Definition reset (s : state) : state :=
  mkState (topic s) [] openai (loading s) None false 0 false (inflight s).

(** [stopDebate()]. *)
Definition stopDebate (s : state) : state :=
  mkState (topic s) (history s) (turn s) (loading s) (error s) false (roundCount s)
          (if Nat.ltb 0 (length (history s)) then true else showExport s) (inflight s).

(** The synchronous part of [nextTurn()], called in the render [snap]:
    [setLoading(true)], [setError(null)], and [fetch] of the endpoint of
    [snap.turn] with the body [{ history, topic }] of [snap]. *)
Definition nextTurn_call (snap cur : state) : state :=
  mkState (topic cur) (history cur) (turn cur) true None (isRunning cur)
          (roundCount cur) (showExport cur)
          (inflight cur ++ [mkFlight (turn snap) (mkBody (Some (history snap)) (Some (topic snap)))])%list.

(** [startConversation()]: [reset()] if there is history, [setIsRunning(true)],
    [setShowExport(false)], then [nextTurn()] of the same render. *)
Definition startConversation (s : state) : state :=
  let s1 := if Nat.ltb 0 (length (history s)) then reset s else s in
  let s2 := mkState (topic s1) (history s1) (turn s1) (loading s1) (error s1) true
                    (roundCount s1) false (inflight s1) in
  nextTurn_call s s2.

(** What the environment answers to a pending request: the upstream
    behaviour of each model service, or a failure of the browser [fetch]
    itself.  The route handler the request went to uses its own part. *)
Inductive reply : Type :=
| ReplyUp (ua : upA) (ub : upB)
| ReplyNet (message : option string).

(** What [nextTurn] sees after [await fetch]: a message, or the text of
    the error it throws. *)
Inductive client_result : Type :=
| CliOk (m : ChatMsg)
| CliErr (text : string).

Definition route_result (t : speaker) (r : reply) : option api_result :=
  match r with
  | ReplyUp ua ub =>
      match t with
      | openai => Some (finishA ua)
      | llama => Some (finishB ub)
      end
  | ReplyNet _ => None
  end.

(** The client side: [if (!res.ok) throw new Error(await res.text())];
    the body text of an error response is [JSON.stringify({ error })]. *)
Definition call_result (f : flight) (r : reply) : client_result :=
  match r with
  | ReplyNet m => CliErr (nullish m "Error desconocido")
  | ReplyUp _ _ =>
      match route_result (fl_turn f) r with
      | Some (ApiOk m) => CliOk m
      | Some (ApiErr _ e) => CliErr (stringify (JObj [("error", JStr e)]))
      | None => CliErr "Error desconocido"
      end
  end.

(** The continuation of [nextTurn] for flight [f], once its [fetch] has
    returned; [rest] is the list of the other pending requests. *)
Definition nextTurn_finish (f : flight) (rest : list flight) (s : state) (cr : client_result)
  : state :=
  match cr with
  | CliOk m =>
      mkState (topic s) (history s ++ [m])%list (flip (turn s)) false (error s)
              (isRunning s) (S (roundCount s)) (showExport s) rest
  | CliErr t =>
      mkState (topic s) (history s) (turn s) false (Some t) false (roundCount s)
              (if Nat.ltb 0 (length (nullish (body_history (fl_body f)) [])) then true
               else showExport s) rest
  end.

(** The effect on [isRunning, roundCount, ...]: its synchronous branch.
    The timer branch is the [TimerFire] event below. *)
Definition settle (s : state) : state :=
  if isRunning s && Nat.leb maxRounds (roundCount s)
  then mkState (topic s) (history s) (turn s) (loading s) (error s) false
               (roundCount s) true (inflight s)
  else s.

Definition nonblank (t : string) : bool := negb (trim t =? EmptyString).

Fixpoint remove_nth {A} (i : nat) (l : list A) : list A :=
  match i, l with
  | _, [] => []
  | 0, _ :: r => r
  | S i', x :: r => x :: remove_nth i' r
  end.

(** Events: typing in the topic input, the start button (disabled while
    [loading] or with a blank topic), Enter in the input
    ([handleKeyPress]), the stop button (shown while running), the reset
    button (shown otherwise), the 2000 ms timer of the effect (set when
    [isRunning && !loading && roundCount < maxRounds]), and the return of
    the [i]-th pending request. *)
Inductive event : Type :=
| SetTopic (t : string)
| ClickStart
| KeyEnter
| ClickStop
| ClickReset
| TimerFire
| Respond (i : nat) (r : reply).

Definition step_raw (s : state) (e : event) : option state :=
  match e with
  | SetTopic t =>
      Some (mkState t (history s) (turn s) (loading s) (error s) (isRunning s)
                    (roundCount s) (showExport s) (inflight s))
  | ClickStart =>
      if negb (loading s) && nonblank (topic s) then Some (startConversation s) else None
  | KeyEnter =>
      if nonblank (topic s) then Some (startConversation s) else None
  | ClickStop => if isRunning s then Some (stopDebate s) else None
  | ClickReset => if isRunning s then None else Some (reset s)
  | TimerFire =>
      if isRunning s && negb (loading s) && Nat.ltb (roundCount s) maxRounds
      then Some (nextTurn_call s s) else None
  | Respond i r =>
      match nth_error (inflight s) i with
      | Some f => Some (nextTurn_finish f (remove_nth i (inflight s)) s (call_result f r))
      | None => None
      end
  end.

Definition step (s : state) (e : event) : option state :=
  match step_raw s e with
  | Some s' => Some (settle s')
  | None => None
  end.

Fixpoint run (s : state) (es : list event) : option state :=
  match es with
  | [] => Some s
  | e :: es' =>
      match step s e with
      | Some s' => run s' es'
      | None => None
      end
  end.

Definition reachable (s : state) : Prop := exists es, run init_state es = Some s.

(** [exportConversation("json")]: the downloaded text. *)
Definition msg_to_json (m : ChatMsg) : json :=
  JObj [("speaker", JStr (speaker_label (msg_speaker m))); ("content", JStr (msg_content m))].

Definition session_to_json (t : string) (h : list ChatMsg) : json :=
  JObj [("topic", JStr t); ("history", JArr (map msg_to_json h))].

Definition exportJSON (t : string) (h : list ChatMsg) : string :=
  stringify2 (session_to_json t h).

(** Reading a parsed export back as [{ topic, history }]. *)
Definition msg_of_json (v : json) : option ChatMsg :=
  match v with
  | JObj ps =>
      match lookup "speaker" ps, lookup "content" ps with
      | Some (JStr sp), Some (JStr c) =>
          match speaker_of_label sp with
          | Some spk => Some (mkMsg spk c)
          | None => None
          end
      | _, _ => None
      end
  | _ => None
  end.

Fixpoint msgs_of_json (l : list json) : option (list ChatMsg) :=
  match l with
  | [] => Some []
  | x :: r =>
      match msg_of_json x, msgs_of_json r with
      | Some m, Some ms => Some (m :: ms)
      | _, _ => None
      end
  end.

Definition session_of_json (v : json) : option (string * list ChatMsg) :=
  match v with
  | JObj ps =>
      match lookup "topic" ps, lookup "history" ps with
      | Some (JStr t), Some (JArr l) =>
          match msgs_of_json l with
          | Some h => Some (t, h)
          | None => None
          end
      | _, _ => None
      end
  | _ => None
  end.

(** ** Concrete runs of the controller *)

(** Both model services answer normally. *)
Definition ok_reply : reply := ReplyUp (UpAOk (Some "Sí.")) (UpBOk (Some "Vale.")).

(** Start, one turn, then "Reiniciar y empezar" while [turn] is [llama],
    then two more turns. *)
Definition restart_trace : list event :=
  [ClickStart; Respond 0 ok_reply; ClickStart; Respond 0 ok_reply; TimerFire; Respond 0 ok_reply].

Fixpoint respond_then_timer (n : nat) : list event :=
  match n with
  | 0 => []
  | S k => Respond 0 ok_reply :: TimerFire :: respond_then_timer k
  end.

(** Enter pressed twice before the first reply; every reply is slower
    than the 2000 ms timer of the next turn. *)
Definition double_enter_trace : list event :=
  (KeyEnter :: KeyEnter :: respond_then_timer 9 ++ [Respond 0 ok_reply; Respond 0 ok_reply])%list.

Definition state_after (es : list event) : state :=
  match run init_state es with Some s => s | None => init_state end.

(** The state right after the first click on the start button. *)
Definition demo_after_start : state := Eval vm_compute in state_after [ClickStart].

(** The history of the spec's example, and an environment with no
    variables set. *)
Definition spec_history : list ChatMsg := [mkMsg openai "hi"; mkMsg llama "hello"].
Definition no_env : env := mkEnv None None None.

(** The request pending after the first start, and an upstream failure. *)
Definition demo_flight : flight :=
  mkFlight openai (mkBody (Some []) (Some "Impacto de la IA en la educación")).
Definition demo_fail : reply := ReplyUp (UpAThrow (Some "500 status code (no body)")) (UpBOk None).

(** The alternation property of the history, starting from [openai]. *)
Definition alternates_from_A (h : list ChatMsg) : Prop :=
  (forall i a b, nth_error h i = Some a -> nth_error h (S i) = Some b ->
                 msg_speaker a <> msg_speaker b)
  /\ (forall a, hd_error h = Some a -> msg_speaker a = openai).

(** The transcript entry of one history message in Adapter B's request. *)
Definition labelled (m : ChatMsg) : role_msg :=
  mkRole "assistant" (to_upper (speaker_label (msg_speaker m)) ++ ": " ++ msg_content m).

(** The invariant [roundCount = history.length]. *)
Definition count_inv (s : state) : Prop := roundCount s = length (history s).

(** The adapter call of flight [f] fails: the browser [fetch] fails, or the
    route handler it reaches answers with an error. *)
Definition call_fails (f : flight) (r : reply) : Prop :=
  match r with
  | ReplyNet _ => True
  | ReplyUp _ _ => exists st e, route_result (fl_turn f) r = Some (ApiErr st e)
  end.

(** ** Derived page values, the export-visibility effect and the title *)

(** [isFinished] and [canExport] (page.tsx). *)
Definition isFinished (s : state) : bool := Nat.leb maxRounds (roundCount s).

Definition canExport (s : state) : bool :=
  (showExport s || isFinished s) && Nat.ltb 0 (length (history s)).

(** The effect on [[isFinished, history.length]]:
    [if (isFinished && history.length > 0) setShowExport(true)]. *)
Definition export_effect (s : state) : state :=
  if isFinished s && Nat.ltb 0 (length (history s))
  then mkState (topic s) (history s) (turn s) (loading s) (error s) (isRunning s)
               (roundCount s) true (inflight s)
  else s.

(** The [title] memo.  The non-ASCII characters of its literals are
    written as their UTF-8 bytes. *)
Definition title (s : state) : string :=
  if isRunning s
  then "💬 Debate en curso: " ++ to_upper (speaker_label (turn s)) ++ " ("
       ++ show_nat (roundCount s) ++ "/" ++ show_nat maxRounds ++ ")"
  else if isFinished s then "✅ Debate finalizado (" ++ topic s ++ ")"
  else "Debate LLM vs LLM (" ++ topic s ++ ")".

(** ** [exportConversation("txt")] and the download file name *)

(** [Array.prototype.map] with the index, starting at [i]. *)
Fixpoint mapi_from {A B} (f : nat -> A -> B) (i : nat) (l : list A) : list B :=
  match l with
  | [] => []
  | x :: r => f i x :: mapi_from f (S i) r
  end.

(** [`${i + 1}. [${m.speaker.toUpperCase()}]: ${m.content}`]. *)
Definition txt_line (i : nat) (m : ChatMsg) : string :=
  show_nat (i + 1) ++ ". [" ++ to_upper (speaker_label (msg_speaker m)) ++ "]: "
  ++ msg_content m.

(** [`Tema: ${topic}\n\n${history.map(...).join("\n\n")}`]. *)
Definition exportTXT (t : string) (h : list ChatMsg) : string :=
  "Tema: " ++ t ++ nl ++ nl ++ join (nl ++ nl) (mapi_from txt_line 0 h).

Inductive export_format : Type := Txt | Json.

Definition format_label (f : export_format) : string :=
  match f with Txt => "txt" | Json => "json" end.

(** [s.split(c)[0]]: the text before the first [c]. *)
Fixpoint before_char (c : ascii) (s : string) : string :=
  match s with
  | EmptyString => EmptyString
  | String d r => if Ascii.eqb d c then EmptyString else String d (before_char c r)
  end.

Fixpoint has_char (c : ascii) (s : string) : bool :=
  match s with
  | EmptyString => false
  | String d r => Ascii.eqb d c || has_char c r
  end.

(** [`debate-${new Date().toISOString().split("T")[0]}.${format}`], for
    the ISO timestamp [iso]. *)
Definition export_filename (iso : string) (f : export_format) : string :=
  "debate-" ++ before_char "T"%char iso ++ "." ++ format_label f.

(** ** The JSON texts exchanged by the page and the route handlers *)

(** The body [JSON.stringify({ history, topic })] that [nextTurn] posts. *)
Definition body_to_json (h : list ChatMsg) (t : string) : json :=
  JObj [("history", JArr (map msg_to_json h)); ("topic", JStr t)].

Definition request_text (snap : state) : string :=
  stringify (body_to_json (history snap) (topic snap)).

(** [(await req.json()) as { history, topic }]: a missing key reads as
    [undefined]; a value of another type than the declared one is outside
    the typed body ([None]). *)
Definition body_of_json (v : json) : option turn_body :=
  match v with
  | JObj ps =>
      let h := match lookup "history" ps with
               | None => Some None
               | Some (JArr l) => option_map Some (msgs_of_json l)
               | Some _ => None
               end in
      let t := match lookup "topic" ps with
               | None => Some None
               | Some (JStr x) => Some (Some x)
               | Some _ => None
               end in
      match h, t with
      | Some h', Some t' => Some (mkBody h' t')
      | _, _ => None
      end
  | _ => None
  end.

(** The body of a successful route answer, [NextResponse.json({ speaker, content })]. *)
Definition response_text (m : ChatMsg) : string := stringify (msg_to_json m).

(** Decimal reading of a string of digits. *)
Definition digit_val (c : ascii) : option nat :=
  let n := nat_of_ascii c in
  if Nat.leb 48 n && Nat.leb n 57 then Some (n - 48) else None.

Fixpoint dec_acc (acc : nat) (s : string) : option nat :=
  match s with
  | EmptyString => Some acc
  | String c r =>
      match digit_val c with
      | Some d => dec_acc (acc * 10 + d) r
      | None => None
      end
  end.

Definition read_nat (s : string) : option nat :=
  match s with
  | EmptyString => None
  | _ => dec_acc 0 s
  end.

(** First and last code unit of a string. *)
Definition first_char (s : string) : option ascii :=
  match s with EmptyString => None | String c _ => Some c end.

Fixpoint last_char (s : string) : option ascii :=
  match s with
  | EmptyString => None
  | String c EmptyString => Some c
  | String _ r => last_char r
  end.

(** A non-empty text that neither starts nor ends with whitespace. *)
Definition clean_text (x : string) : Prop :=
  x <> EmptyString
  /\ (forall c, first_char x = Some c -> is_js_ws c = false)
  /\ (forall c, last_char x = Some c -> is_js_ws c = false).

(** ** Event classes and controller invariants *)

Definition not_enter (e : event) : bool :=
  match e with KeyEnter => false | _ => true end.

Definition not_start (e : event) : bool :=
  match e with ClickStart | KeyEnter => false | _ => true end.

(** The invariant of runs without the Enter key: at most one pending
    request, loading exactly while it is pending, started below the cap. *)
Definition single_flight (s : state) : Prop :=
  roundCount s = length (history s)
  /\ ((inflight s = [] /\ loading s = false)
      \/ (exists f, inflight s = [f] /\ loading s = true /\ roundCount s < maxRounds))
  /\ roundCount s <= maxRounds.

(** Runs used below: a complete debate, and a first turn that fails. *)
Definition full_trace : list event :=
  (ClickStart :: respond_then_timer 9 ++ [Respond 0 ok_reply])%list.

Definition fail_trace : list event := [ClickStart; Respond 0 demo_fail].

(** * Properties *)

(** ** String lemmas *)

Lemma sapp_assoc : forall a b c : string, (a ++ b) ++ c = a ++ b ++ c.
Proof. induction a; intros; simpl; [reflexivity | now rewrite IHa]. Qed.

Lemma sapp_nil_r : forall a : string, a ++ EmptyString = a.
Proof. induction a; simpl; [reflexivity | now rewrite IHa]. Qed.

Lemma slen_app : forall a b : string, String.length (a ++ b) = String.length a + String.length b.
Proof. induction a; intros; simpl; [reflexivity | now rewrite IHa]. Qed.

(** ** Adapters *)
Module Adapters.

(** C5: with an empty history and topic [X], the user-role content of the
    request Adapter A builds contains [X] verbatim. *)
Theorem adapterA_opening_mentions_topic :
  forall (e : env) (X : string),
    exists pre post,
      In (mkRole "user" (pre ++ X ++ post)) (reqA_input (buildA e (mkBody (Some []) (Some X)))).
Proof.
  intros e X.
  exists ("Inicia una conversación con otro LLM sobre este tema: " ++ chr dq), (chr dq ++ ".").
  unfold buildA; cbn [reqA_input In]. right; left. reflexivity.
Qed.

(** C6: for a non-empty history, Adapter B's message list is the system
    instruction, then one entry per history message in history order, each
    the uppercased speaker label, ": " and the content, then the final
    user instruction. *)
Theorem adapterB_transcript_in_order :
  forall (e : env) (b : turn_body) (h : list ChatMsg),
    body_history b = Some h -> h <> [] ->
    reqB_messages (buildB e b)
    = (mkRole "system" systemB :: map labelled h
       ++ [mkRole "user" "Ahora te toca responder. Continúa la conversación."])%list.
Proof.
  intros e b h Hb _. unfold buildB, messagesB. simpl. now rewrite Hb.
Qed.

(** C7: a successful reply [r] gives the content [trim r], or the fixed
    non-empty placeholder when [trim r] is empty; never an error. *)
Theorem adapters_trim_or_placeholder :
  forall r : string,
    finishA (UpAOk (Some r))
      = ApiOk (mkMsg openai (if trim r =? EmptyString then placeholder else trim r))
    /\ finishB (UpBOk (Some r))
      = ApiOk (mkMsg llama (if trim r =? EmptyString then placeholder else trim r))
    /\ placeholder <> EmptyString.
Proof.
  intros r. unfold finishA, finishB, js_or. simpl.
  repeat split; discriminate.
Qed.

(** C8: Adapter B builds the same request and returns the same result for
    two bodies that differ only in [topic]. *)
Theorem adapterB_topic_noninterference :
  forall (e : env) (h : option (list ChatMsg)) (t1 t2 : option string) (u : upB),
    adapterB e (mkBody h t1) u = adapterB e (mkBody h t2) u.
Proof. reflexivity. Qed.

End Adapters.

(** ** Turn controller *)
Module Controller.

Lemma settle_history : forall s, history (settle s) = history s.
Proof. intros s; unfold settle; now destruct (_ && _). Qed.

Lemma settle_roundCount : forall s, roundCount (settle s) = roundCount s.
Proof. intros s; unfold settle; now destruct (_ && _). Qed.

Lemma settle_error : forall s, error (settle s) = error s.
Proof. intros s; unfold settle; now destruct (_ && _). Qed.

Lemma settle_isRunning_false : forall s, isRunning s = false -> settle s = s.
Proof. intros s H; unfold settle; now rewrite H. Qed.


Lemma startConversation_count :
  forall s, count_inv s -> count_inv (startConversation s).
Proof.
  intros s H; unfold count_inv, startConversation, nextTurn_call in *; simpl.
  destruct (Nat.ltb 0 (length (history s))); simpl; auto.
Qed.

Lemma step_raw_count :
  forall s e s', step_raw s e = Some s' -> count_inv s -> count_inv s'.
Proof.
  intros s e s' Hs H; destruct e; simpl in Hs.
  - inversion Hs; subst; exact H.
  - destruct (_ && _); inversion Hs; subst; now apply startConversation_count.
  - destruct (nonblank _); inversion Hs; subst; now apply startConversation_count.
  - destruct (isRunning s); inversion Hs; subst; exact H.
  - destruct (isRunning s); inversion Hs; subst; unfold count_inv; reflexivity.
  - destruct (_ && _ && _); inversion Hs; subst; exact H.
  - destruct (nth_error (inflight s) i) as [f|]; inversion Hs; subst.
    unfold count_inv in *; destruct (call_result f r); simpl;
      [rewrite length_app; simpl; lia | exact H].
Qed.

Lemma step_count :
  forall s e s', step s e = Some s' -> count_inv s -> count_inv s'.
Proof.
  intros s e s' Hs H; unfold step in Hs.
  destruct (step_raw s e) as [s1|] eqn:E; inversion Hs; subst.
  unfold count_inv; rewrite settle_history, settle_roundCount.
  exact (step_raw_count _ _ _ E H).
Qed.

Lemma run_count :
  forall es s s', run s es = Some s' -> count_inv s -> count_inv s'.
Proof.
  induction es as [|e es IH]; intros s s' Hr H; simpl in Hr.
  - now inversion Hr; subst.
  - destruct (step s e) as [s1|] eqn:E; [|discriminate].
    exact (IH _ _ Hr (step_count _ _ _ E H)).
Qed.


(** C9: [reset()] clears history, counter, speaker, running flag and error. *)
Theorem reset_clears :
  forall s : state,
    history (reset s) = [] /\ roundCount (reset s) = 0 /\ turn (reset s) = openai
    /\ isRunning (reset s) = false /\ error (reset s) = None.
Proof. intros s; repeat split. Qed.

(** C10: in every reachable state, [roundCount] equals the length of the
    history. *)
Theorem roundCount_eq_history_length :
  forall s : state, reachable s -> roundCount s = length (history s).
Proof.
  intros s [es Hr]. exact (run_count es init_state s Hr eq_refl).
Qed.

(** C3: a non-success or throwing upstream call gives an error result
    (status 500) in both adapters; when a turn's call fails, the turn
    leaves the history unchanged, records the error text and stops the run. *)
Theorem failed_turn_preserves_history :
  (forall m, exists e, finishA (UpAThrow m) = ApiErr 500 e)
  /\ (forall st t, exists e, finishB (UpBNotOk st t) = ApiErr 500 e)
  /\ (forall m, exists e, finishB (UpBThrow m) = ApiErr 500 e)
  /\ (forall s i f r,
        nth_error (inflight s) i = Some f -> call_fails f r ->
        exists t s',
          call_result f r = CliErr t
          /\ step s (Respond i r) = Some s'
          /\ history s' = history s /\ error s' = Some t /\ isRunning s' = false).
Proof.
  split; [intros m; eexists; reflexivity|].
  split; [intros st t; eexists; reflexivity|].
  split; [intros m; eexists; reflexivity|].
  intros s i f r Hf Hfail.
  assert (Hc : exists t, call_result f r = CliErr t).
  { destruct r as [ua ub|m]; simpl in *.
    - destruct Hfail as [st [e He]]. unfold route_result in He. rewrite He.
      eexists; reflexivity.
    - eexists; reflexivity. }
  destruct Hc as [t Ht].
  exists t. eexists. split; [exact Ht|].
  unfold step, step_raw. rewrite Hf, Ht. split; [reflexivity|].
  rewrite settle_isRunning_false by reflexivity. simpl. auto.
Qed.

(** C1 (code defect): after "Reiniciar y empezar" in a state whose [turn]
    is [llama], the restarted history begins with [llama] and [llama]
    speaks twice in a row: [nextTurn] reads the [turn] of the render before
    [reset()]. *)
Theorem restart_breaks_alternation :
  exists s, run init_state restart_trace = Some s
            /\ map msg_speaker (history s) = [llama; llama]
            /\ ~ alternates_from_A (history s).
Proof.
  exists (state_after restart_trace).
  assert (E : history (state_after restart_trace) = [mkMsg llama "Vale."; mkMsg llama "Vale."])
    by (vm_compute; reflexivity).
  split; [vm_compute; reflexivity|]. rewrite E. split; [reflexivity|].
  intros [H _]. exact (H 0 _ _ eq_refl eq_refl eq_refl).
Qed.

(** C2 (code defect): with Enter pressed twice before the first reply,
    two turns overlap and [roundCount] reaches 11 > [maxRounds]. *)
Theorem double_enter_exceeds_maxRounds :
  exists s, run init_state double_enter_trace = Some s
            /\ roundCount s = 11 /\ Nat.ltb maxRounds (roundCount s) = true
            /\ isRunning s = false.
Proof.
  exists (state_after double_enter_trace).
  split; [vm_compute; reflexivity|]. vm_compute. repeat split.
Qed.

End Controller.

(** ** Structured export round trip *)
Module ExportJSON.

Lemma pstr_escape_char : forall c t, pstr (escape_char c ++ t) = cons_res c (pstr t).
Proof.
  intros [[] [] [] [] [] [] [] []] t; reflexivity.
Qed.

Lemma pstr_escape : forall s rest, pstr (escape s ++ String dq rest) = Some (s, rest).
Proof.
  induction s as [|c s IH]; intros rest; [reflexivity|].
  simpl escape. rewrite sapp_assoc, pstr_escape_char, IH. reflexivity.
Qed.

Lemma ws_only_app : forall a b, ws_only (a ++ b) = ws_only a && ws_only b.
Proof. induction a as [|c a IH]; intros b; simpl; [reflexivity|]. now rewrite IH, andb_assoc. Qed.

Lemma skip_ws_app : forall w s, ws_only w = true -> skip_ws (w ++ s) = skip_ws s.
Proof.
  induction w as [|c w IH]; intros s H; simpl in *; [reflexivity|].
  apply andb_prop in H as [H1 H2]. rewrite H1. now apply IH.
Qed.

Lemma ws_brk : forall gap, ws_only (brk gap) = true.
Proof. intros gap; unfold brk; now destruct (gap =? EmptyString). Qed.

Lemma ws_colsp : forall gap, ws_only (colsp gap) = true.
Proof. intros gap; unfold colsp; now destruct (gap =? EmptyString). Qed.

Lemma pv_ws : forall n w s, ws_only w = true -> pv n (w ++ s) = pv n s.
Proof.
  intros [|n] w s H; [reflexivity|]. simpl. now rewrite skip_ws_app.
Qed.

Lemma ser_head : forall gap ind v,
  exists c t, ser gap ind v = String c t /\ is_json_ws c = false /\ Ascii.eqb c "]"%char = false.
Proof.
  intros gap ind [| [] | s | [|x l] | [|[k x] l]]; do 2 eexists; split;
    try reflexivity; split; reflexivity.
Qed.

Lemma skip_ws_head : forall gap ind v rest,
  exists c t, skip_ws (ser gap ind v ++ rest) = String c t /\ ser gap ind v ++ rest = String c t
              /\ Ascii.eqb c "]"%char = false.
Proof.
  intros gap ind v rest. destruct (ser_head gap ind v) as [c [t [E [W B]]]].
  exists c, (t ++ rest). rewrite E. simpl. rewrite W. auto.
Qed.

Lemma ser_arr_app : forall gap ind x l rest,
  ser gap ind (JArr (x :: l)) ++ rest
  = String "["%char (brk gap ++ (ind ++ gap) ++ ser gap (ind ++ gap) x
      ++ join_items (ser gap (ind ++ gap)) ("," ++ brk gap ++ (ind ++ gap)) l
      ++ brk gap ++ ind ++ String "]"%char rest).
Proof. intros. simpl. now rewrite !sapp_assoc. Qed.

Lemma pelems_ser : forall gap ind rest, ws_only gap = true -> ws_only ind = true ->
  forall l, Forall Pser l -> forall x, Pser x -> forall m w,
    S (jsize x) + list_sum (map (fun z => S (jsize z)) l) <= m -> ws_only w = true ->
    pelems m (w ++ ser gap (ind ++ gap) x
                ++ join_items (ser gap (ind ++ gap)) ("," ++ brk gap ++ (ind ++ gap)) l
                ++ brk gap ++ ind ++ String "]"%char rest) = Some (x :: l, rest).
Proof.
  intros gap ind rest Hg Hi l Hl.
  induction Hl as [|y l' Hy Hl' IH]; intros x Hx m w Hm Hw;
    (destruct m as [|m]; [simpl in Hm; lia|]); simpl pelems.
  - rewrite pv_ws by exact Hw.
    rewrite Hx; [| exact Hg | rewrite ws_only_app, Hi, Hg; reflexivity | simpl in Hm; lia].
    simpl join_items. rewrite skip_ws_app by apply ws_brk.
    rewrite skip_ws_app by exact Hi. reflexivity.
  - rewrite pv_ws by exact Hw.
    rewrite Hx; [| exact Hg | rewrite ws_only_app, Hi, Hg; reflexivity | simpl in Hm; lia].
    simpl join_items. simpl.
    rewrite (sapp_assoc (brk gap ++ ind ++ gap)), (sapp_assoc (ser gap (ind ++ gap) y)).
    rewrite IH; [reflexivity | exact Hy | simpl in Hm; lia |].
    rewrite ws_only_app, ws_brk, ws_only_app, Hi, Hg; reflexivity.
Qed.

Lemma quote_app : forall k X, quote k ++ X = String dq (escape k ++ String dq X).
Proof. intros; unfold quote; simpl; now rewrite sapp_assoc. Qed.

Lemma pmembers_ser : forall gap ind rest, ws_only gap = true -> ws_only ind = true ->
  forall l, Forall (fun kv => Pser (snd kv)) l -> forall k x, Pser x -> forall m w,
    S (jsize x) + list_sum (map (fun kv => S (jsize (snd kv))) l) <= m -> ws_only w = true ->
    pmembers m (w ++ quote k ++ ":" ++ colsp gap ++ ser gap (ind ++ gap) x
                ++ join_items (memb gap ind) ("," ++ brk gap ++ (ind ++ gap)) l
                ++ brk gap ++ ind ++ String "}"%char rest) = Some ((k, x) :: l, rest).
Proof.
  intros gap ind rest Hg Hi l Hl.
  induction Hl as [|[k' y] l' Hy Hl' IH]; intros k x Hx m w Hm Hw;
    (destruct m as [|m]; [simpl in Hm; lia|]); rewrite quote_app; simpl pmembers;
    rewrite skip_ws_app by exact Hw; simpl; rewrite pstr_escape; simpl;
    rewrite pv_ws by apply ws_colsp;
    (rewrite Hx; [| exact Hg | rewrite ws_only_app, Hi, Hg; reflexivity | simpl in Hm; lia]).
  - simpl join_items. rewrite skip_ws_app by apply ws_brk.
    rewrite skip_ws_app by exact Hi. reflexivity.
  - simpl.
    match goal with |- context [pmembers m ?r] =>
      replace r with ((brk gap ++ ind ++ gap) ++ quote k' ++ ":" ++ colsp gap
                      ++ ser gap (ind ++ gap) y
                      ++ join_items (memb gap ind) ("," ++ brk gap ++ (ind ++ gap)) l'
                      ++ brk gap ++ ind ++ String "}"%char rest)
    end.
    + rewrite IH; [reflexivity | exact Hy | simpl in Hm; lia |].
      rewrite ws_only_app, ws_brk, ws_only_app, Hi, Hg; reflexivity.
    + rewrite quote_app. repeat (rewrite !sapp_assoc; simpl). reflexivity.
Qed.

Lemma ser_obj_app : forall gap ind k x l rest,
  ser gap ind (JObj ((k, x) :: l)) ++ rest
  = String "{"%char (brk gap ++ (ind ++ gap) ++ quote k ++ ":" ++ colsp gap
      ++ ser gap (ind ++ gap) x
      ++ join_items (memb gap ind) ("," ++ brk gap ++ (ind ++ gap)) l
      ++ brk gap ++ ind ++ String "}"%char rest).
Proof. intros. simpl. repeat (rewrite !sapp_assoc; simpl). reflexivity. Qed.

Lemma ser_parse : forall v, Pser v.
Proof.
  induction v as [ | b | s | l Hl | l Hl] using json_ind';
    intros gap ind rest n Hg Hi Hn. all: (destruct n as [|n]; [simpl in Hn; lia|]).
  - reflexivity.
  - destruct b; reflexivity.
  - simpl ser. rewrite quote_app. simpl. rewrite pstr_escape. reflexivity.
  - destruct l as [|x l]; [reflexivity|].
    inversion Hl as [|? ? Hx Hl']; subst.
    rewrite ser_arr_app. simpl pv.
    rewrite (skip_ws_app (brk gap)) by apply ws_brk.
    rewrite (skip_ws_app (ind ++ gap)) by (rewrite ws_only_app, Hi, Hg; reflexivity).
    rewrite <- (sapp_assoc (brk gap) (ind ++ gap)).
    rewrite (pelems_ser gap ind rest Hg Hi l Hl' x Hx n);
      [| simpl in Hn; lia | rewrite ws_only_app, ws_brk, ws_only_app, Hi, Hg; reflexivity].
    destruct (ser_head gap (ind ++ gap) x) as [c [t [E1 [E2 E3]]]].
    rewrite E1. simpl. rewrite E2, E3. reflexivity.
  - destruct l as [|[k x] l]; [reflexivity|].
    inversion Hl as [|? ? Hx Hl']; subst.
    rewrite ser_obj_app. simpl pv.
    rewrite (skip_ws_app (brk gap)) by apply ws_brk.
    rewrite (skip_ws_app (ind ++ gap)) by (rewrite ws_only_app, Hi, Hg; reflexivity).
    simpl.
    match goal with |- context [pmembers n ?r] =>
      replace r with ((brk gap ++ ind ++ gap) ++ quote k ++ ":" ++ colsp gap
                      ++ ser gap (ind ++ gap) x
                      ++ join_items (memb gap ind) ("," ++ brk gap ++ (ind ++ gap)) l
                      ++ brk gap ++ ind ++ String "}"%char rest)
    end.
    + rewrite (pmembers_ser gap ind rest Hg Hi l Hl' k x Hx n); [reflexivity | simpl in Hn; lia |].
      rewrite ws_only_app, ws_brk, ws_only_app, Hi, Hg; reflexivity.
    + rewrite quote_app. repeat (rewrite !sapp_assoc; simpl). reflexivity.
Qed.

Lemma join_items_len : forall A (f : A -> string) pre (g : A -> nat) l,
  1 <= String.length pre -> Forall (fun y => g y <= String.length (f y)) l ->
  list_sum (map (fun y => S (g y)) l) <= String.length (join_items f pre l).
Proof.
  intros A f pre g l Hp Hl; induction Hl as [|y l Hy Hl IH]; simpl; [lia|].
  rewrite !slen_app. lia.
Qed.

Lemma jsize_le_length : forall v gap ind, jsize v <= String.length (ser gap ind v).
Proof.
  induction v as [ | b | s | l Hl | l Hl] using json_ind'; intros gap ind.
  - simpl; lia.
  - destruct b; simpl; lia.
  - simpl; lia.
  - destruct l as [|x l]; [simpl; lia|].
    inversion Hl as [|? ? Hx Hl']; subst.
    assert (Hj := join_items_len _ (ser gap (ind ++ gap)) ("," ++ brk gap ++ (ind ++ gap))
                    jsize l (le_n_S _ _ (Nat.le_0_l _))
                    (Forall_impl _ (fun y Hy => Hy gap (ind ++ gap)) Hl')).
    specialize (Hx gap (ind ++ gap)).
    change (ser gap ind (JArr (x :: l))) with
      ("[" ++ brk gap ++ (ind ++ gap) ++ ser gap (ind ++ gap) x
       ++ join_items (ser gap (ind ++ gap)) ("," ++ brk gap ++ (ind ++ gap)) l
       ++ brk gap ++ ind ++ "]").
    rewrite !slen_app. simpl jsize. simpl String.length in Hj |- *. lia.
  - destruct l as [|[k x] l]; [simpl; lia|].
    inversion Hl as [|? ? Hx Hl']; subst.
    assert (Hm : forall kv : string * json,
               String.length (ser gap (ind ++ gap) (snd kv)) <= String.length (memb gap ind kv)).
    { intros kv. unfold memb. rewrite !slen_app. lia. }
    assert (Hj := join_items_len _ (memb gap ind) ("," ++ brk gap ++ (ind ++ gap))
                    (fun kv => jsize (snd kv)) l (le_n_S _ _ (Nat.le_0_l _))
                    (Forall_impl (fun kv => jsize (snd kv) <= String.length (memb gap ind kv))
                       (fun y (Hy : forall gap ind, jsize (snd y) <= String.length (ser gap ind (snd y))) =>
                          Nat.le_trans _ _ _ (Hy gap (ind ++ gap)) (Hm y)) Hl')).
    specialize (Hx gap (ind ++ gap)). simpl in Hx.
    change (ser gap ind (JObj ((k, x) :: l))) with
      ("{" ++ brk gap ++ (ind ++ gap) ++ quote k ++ ":" ++ colsp gap ++ ser gap (ind ++ gap) x
       ++ join_items (memb gap ind) ("," ++ brk gap ++ (ind ++ gap)) l
       ++ brk gap ++ ind ++ "}").
    rewrite !slen_app. simpl jsize. simpl String.length in Hj |- *. lia.
Qed.

Lemma msgs_of_json_map : forall h, msgs_of_json (map msg_to_json h) = Some h.
Proof.
  induction h as [|[[] c] h IH]; simpl; [reflexivity | |]; rewrite IH; reflexivity.
Qed.

(** C4: the structured export parses back ([JSON.parse]) to the object
    [{ topic, history }], which reads back as exactly the pair [(topic, history)]. *)
Theorem export_json_roundtrip :
  forall (t : string) (h : list ChatMsg),
    parse_json (exportJSON t h) = Some (session_to_json t h)
    /\ session_of_json (session_to_json t h) = Some (t, h).
Proof.
  intros t h. split.
  - unfold parse_json, exportJSON, stringify2.
    pose proof (ser_parse (session_to_json t h) "  " EmptyString EmptyString
                  (String.length (ser "  " EmptyString (session_to_json t h)))
                  eq_refl eq_refl (jsize_le_length _ _ _)) as H.
    rewrite sapp_nil_r in H. rewrite H. reflexivity.
  - unfold session_of_json, session_to_json. simpl. now rewrite msgs_of_json_map.
Qed.

End ExportJSON.

(** ** Further properties of the page and the route handlers *)
Module Extras.

(** *** Helper lemmas *)

Lemma parse_ser : forall gap v, ws_only gap = true -> parse_json (ser gap EmptyString v) = Some v.
Proof.
  intros gap v Hg. unfold parse_json.
  pose proof (ExportJSON.ser_parse v gap EmptyString EmptyString
                (String.length (ser gap EmptyString v)) Hg eq_refl
                (ExportJSON.jsize_le_length _ _ _)) as H.
  rewrite sapp_nil_r in H. rewrite H. reflexivity.
Qed.

Lemma session_of_to : forall t h, session_of_json (session_to_json t h) = Some (t, h).
Proof.
  intros t h. unfold session_of_json, session_to_json. simpl.
  now rewrite ExportJSON.msgs_of_json_map.
Qed.

Lemma digit_val_digit : forall n, digit_val (ascii_of_nat (48 + n mod 10)) = Some (n mod 10).
Proof.
  intros n. assert (Hm : n mod 10 < 10) by (apply Nat.mod_upper_bound; lia).
  unfold digit_val. rewrite nat_ascii_embedding by lia.
  replace (Nat.leb 48 (48 + n mod 10)) with true by (symmetry; apply Nat.leb_le; lia).
  replace (Nat.leb (48 + n mod 10) 57) with true by (symmetry; apply Nat.leb_le; lia).
  simpl. f_equal. lia.
Qed.

Lemma dec_acc_cons : forall k c r,
  dec_acc k (String c r) = match digit_val c with Some d => dec_acc (k * 10 + d) r | None => None end.
Proof. reflexivity. Qed.

Lemma digits_aux_dec : forall f n acc k, n < f ->
  exists p, dec_acc k (digits_aux f n acc) = dec_acc (k * p + n) acc.
Proof.
  induction f as [|f IH]; intros n acc k Hn; [lia|].
  cbn [digits_aux]. destruct (Nat.ltb n 10) eqn:L.
  - apply Nat.ltb_lt in L. exists 10. rewrite dec_acc_cons, digit_val_digit.
    rewrite Nat.mod_small by exact L. reflexivity.
  - apply Nat.ltb_ge in L.
    destruct (IH (n / 10) (String (ascii_of_nat (48 + n mod 10)) acc) k) as [p Hp].
    { assert (n / 10 < n) by (apply Nat.div_lt; lia). lia. }
    exists (p * 10). rewrite Hp, dec_acc_cons, digit_val_digit. f_equal.
    pose proof (Nat.div_mod_eq n 10) as D.
    rewrite Nat.mul_add_distr_r, Nat.mul_assoc. lia.
Qed.

Lemma digits_aux_nonempty : forall f n c acc, digits_aux f n (String c acc) <> EmptyString.
Proof.
  induction f as [|f IH]; intros n c acc; simpl; [discriminate|].
  destruct (Nat.ltb n 10); [discriminate | apply IH].
Qed.

Lemma read_show_nat : forall n, read_nat (show_nat n) = Some n.
Proof.
  intros n. unfold read_nat, show_nat.
  destruct (digits_aux_dec (S n) n EmptyString 0 (Nat.lt_succ_diag_r n)) as [p Hp].
  destruct (digits_aux (S n) n EmptyString) eqn:E.
  2: { rewrite Hp. reflexivity. }
  exfalso. cbn [digits_aux] in E. destruct (Nat.ltb n 10); [discriminate|].
  exact (digits_aux_nonempty _ _ _ _ E).
Qed.

Lemma trim_start_head : forall s c r, trim_start s = String c r -> is_js_ws c = false.
Proof.
  induction s as [|a s IH]; intros c r H; simpl in H; [discriminate|].
  destruct (is_js_ws a) eqn:W; [exact (IH _ _ H)|]. inversion H; subst; exact W.
Qed.

Lemma trim_end_head : forall c r, is_js_ws c = false -> exists r', trim_end (String c r) = String c r'.
Proof. intros c r W. simpl. rewrite W, andb_false_r. eexists; reflexivity. Qed.

Lemma trim_end_last : forall s c, last_char (trim_end s) = Some c -> is_js_ws c = false.
Proof.
  induction s as [|a s IH]; intros c H; [discriminate|]. cbn [trim_end] in H.
  destruct (trim_end s) as [|b r] eqn:T; simpl in H.
  - destruct (is_js_ws a) eqn:W; simpl in H; [discriminate|]. inversion H; subst; exact W.
  - apply IH. exact H.
Qed.

Lemma placeholder_clean : clean_text placeholder.
Proof.
  split; [discriminate|]. split; intros c H; vm_compute in H; inversion H; reflexivity.
Qed.

Lemma js_or_trim_clean : forall x, clean_text (js_or (trim x) placeholder).
Proof.
  intros x. unfold js_or. destruct (trim x =? EmptyString) eqn:E; [exact placeholder_clean|].
  split; [intros H; rewrite H in E; discriminate|].
  unfold trim in *. destruct (trim_start x) as [|c r] eqn:T; [discriminate|].
  destruct (trim_end_head c r (trim_start_head _ _ _ T)) as [r' Hr].
  split; [rewrite Hr; intros c' H; inversion H; subst; exact (trim_start_head _ _ _ T)|].
  apply trim_end_last.
Qed.

Lemma join_in : forall sep l x, In x l -> exists pre post, join sep l = pre ++ x ++ post.
Proof.
  intros sep l. induction l as [|a l IH]; intros x H; [destruct H|].
  destruct H as [H|H].
  - subst. destruct l as [|b l].
    + exists EmptyString, EmptyString. simpl. now rewrite sapp_nil_r.
    + exists EmptyString, (sep ++ join sep (b :: l)). reflexivity.
  - destruct (IH x H) as [pre [post E]]. destruct l as [|b l]; [destruct H|].
    exists (a ++ sep ++ pre), post. change (join sep (a :: b :: l)) with (a ++ sep ++ join sep (b :: l)).
    rewrite E, !sapp_assoc. reflexivity.
Qed.

Lemma mapi_from_nth : forall {A B} (f : nat -> A -> B) l i0 i x,
  nth_error l i = Some x -> nth_error (mapi_from f i0 l) i = Some (f (i0 + i) x).
Proof.
  intros A B f l. induction l as [|a l IH]; intros i0 i x H; destruct i; simpl in *;
    try discriminate.
  - inversion H; subst. now rewrite Nat.add_0_r.
  - rewrite (IH (S i0) i x H). f_equal. f_equal. lia.
Qed.

Lemma join_head_length : forall sep x l, String.length x <= String.length (join sep (x :: l)).
Proof.
  intros sep x [|y l]; simpl; [lia|]. rewrite slen_app. lia.
Qed.

Lemma length_remove_nth : forall {A} i (l : list A), length (remove_nth i l) <= length l.
Proof.
  intros A i l. revert i. induction l as [|a l IH]; intros [|i]; simpl; try lia.
  specialize (IH i). lia.
Qed.

Lemma settle_topic : forall s, topic (settle s) = topic s.
Proof. intros s; unfold settle; now destruct (_ && _). Qed.

Lemma settle_turn : forall s, turn (settle s) = turn s.
Proof. intros s; unfold settle; now destruct (_ && _). Qed.

Lemma settle_loading : forall s, loading (settle s) = loading s.
Proof. intros s; unfold settle; now destruct (_ && _). Qed.

Lemma settle_inflight : forall s, inflight (settle s) = inflight s.
Proof. intros s; unfold settle; now destruct (_ && _). Qed.

Lemma settle_isRunning : forall s, isRunning (settle s) = true -> isRunning s = true.
Proof. intros s; unfold settle; destruct (_ && _) eqn:E; simpl; [discriminate | auto]. Qed.

(** An invariant of [step_raw] and [settle] holds along every run made of
    events accepted by [ok]. *)
Lemma run_preserves :
  forall (P : state -> Prop) (ok : event -> bool),
    (forall s e s', ok e = true -> step_raw s e = Some s' -> P s -> P s') ->
    (forall s, P s -> P (settle s)) ->
    forall es s s', forallb ok es = true -> run s es = Some s' -> P s -> P s'.
Proof.
  intros P ok Hstep Hsettle es. induction es as [|e es IH]; intros s s' Hok Hr Hs;
    simpl in Hok, Hr.
  - now inversion Hr; subst.
  - apply andb_prop in Hok as [He Hes].
    unfold step in Hr. destruct (step_raw s e) as [s1|] eqn:E; [|discriminate].
    exact (IH _ _ Hes Hr (Hsettle _ (Hstep _ _ _ He E Hs))).
Qed.

Lemma reachable_preserves :
  forall (P : state -> Prop),
    (forall s e s', step_raw s e = Some s' -> P s -> P s') ->
    (forall s, P s -> P (settle s)) ->
    P init_state -> forall s, reachable s -> P s.
Proof.
  intros P Hstep Hsettle Hinit s [es Hr].
  assert (Hok : forallb (fun _ : event => true) es = true)
    by (clear Hr; induction es as [|e es IH]; simpl; auto).
  exact (run_preserves P (fun _ => true) (fun s e s' _ => Hstep s e s') Hsettle
           es init_state s Hok Hr Hinit).
Qed.

Lemma reachable_count : forall s, reachable s -> roundCount s = length (history s).
Proof. intros s [es Hr]. exact (Controller.run_count es init_state s Hr eq_refl). Qed.

(** Unfold one controller step, splitting on its guards. *)
Ltac step_cases Hs :=
  simpl in Hs;
  repeat match type of Hs with
         | context [if ?b then _ else _] =>
             let E := fresh "G" in destruct b eqn:E; simpl in Hs
         | context [match nth_error ?l ?i with _ => _ end] =>
             let E := fresh "N" in destruct (nth_error l i) eqn:E; simpl in Hs
         end;
  try discriminate; inversion Hs; subst; clear Hs.

(** *** Wire formats *)

(** X1: the text [nextTurn] posts, [JSON.stringify({ history, topic })],
    reads back in the route handler as exactly the history and topic of
    the render that sent it, i.e. the body recorded with the request. *)
Theorem request_body_roundtrip :
  forall snap cur : state,
    exists f v,
      inflight (nextTurn_call snap cur) = (inflight cur ++ [f])%list
      /\ parse_json (request_text snap) = Some v
      /\ body_of_json v = Some (fl_body f)
      /\ fl_body f = mkBody (Some (history snap)) (Some (topic snap)).
Proof.
  intros snap cur.
  exists (mkFlight (turn snap) (mkBody (Some (history snap)) (Some (topic snap)))),
         (body_to_json (history snap) (topic snap)).
  split; [reflexivity|]. split; [exact (parse_ser EmptyString _ eq_refl)|].
  split; [|reflexivity].
  unfold body_of_json, body_to_json. simpl. now rewrite ExportJSON.msgs_of_json_map.
Qed.

(** X2: the JSON body of a successful route answer parses back
    ([res.json()]) to the same message. *)
Theorem response_body_roundtrip :
  forall m : ChatMsg,
    parse_json (response_text m) = Some (msg_to_json m) /\ msg_of_json (msg_to_json m) = Some m.
Proof.
  intros [[] c]; split; try reflexivity; apply parse_ser; reflexivity.
Qed.

(** X3: when a route handler answers with an error [e], the page's error
    text is the raw JSON body [{"error":...}] of the answer (it starts with
    a brace), and [JSON.parse] of it gives back [{ error: e }]. *)
Theorem route_error_text_is_json :
  forall (f : flight) (ua : upA) (ub : upB) (st : nat) (e : string),
    route_result (fl_turn f) (ReplyUp ua ub) = Some (ApiErr st e) ->
    exists t, call_result f (ReplyUp ua ub) = CliErr t
              /\ first_char t = Some "{"%char
              /\ parse_json t = Some (JObj [("error", JStr e)]).
Proof.
  intros f ua ub st e H. unfold call_result. cbv beta iota. rewrite H.
  eexists. split; [reflexivity|]. split; [reflexivity|].
  apply parse_ser. reflexivity.
Qed.

(** X4: a message the page receives always carries the speaker of the
    endpoint its request was sent to. *)
Theorem reply_speaker_is_endpoint :
  forall (f : flight) (r : reply) (m : ChatMsg),
    call_result f r = CliOk m -> msg_speaker m = fl_turn f.
Proof.
  intros f [ua ub|mm] m H; simpl in H; [|discriminate].
  destruct (fl_turn f); simpl in H; [destruct ua | destruct ub]; simpl in H;
    inversion H; reflexivity.
Qed.

(** *** Route handlers *)

(** X5: a request body without [history] is handled like an empty history
    by both route handlers; without [topic] (and history), Adapter A's
    opening prompt uses the topic "tecnología". *)
Theorem missing_keys_defaults :
  forall (e : env) (t : option string),
    buildA e (mkBody None t) = buildA e (mkBody (Some []) t)
    /\ buildB e (mkBody None t) = buildB e (mkBody (Some []) t)
    /\ user_contentA (mkBody None None)
       = "Inicia una conversación con otro LLM sobre este tema: "
         ++ chr dq ++ "tecnología" ++ chr dq ++ ".".
Proof. intros e t. repeat split. Qed.

(** X6: with a non-empty history, Adapter A's user prompt is the labelled
    transcript (one line per message) between the two fixed sentences, and
    the request does not depend on the topic. *)
Theorem adapterA_history_prompt :
  forall (e : env) (h : list ChatMsg) (t1 t2 : option string),
    h <> [] ->
    user_contentA (mkBody (Some h) t1)
      = "Conversación hasta ahora:" ++ nl ++ join nl (map msg_line h) ++ nl ++ nl
        ++ "Ahora te toca hablar. Continúa."
    /\ buildA e (mkBody (Some h) t1) = buildA e (mkBody (Some h) t2).
Proof.
  intros e [|m r] t1 t2 Hh; [contradiction|].
  assert (L : Nat.ltb 0 (String.length (transcriptA (Some (m :: r)))) = true).
  { apply Nat.ltb_lt. unfold transcriptA. simpl map.
    pose proof (join_head_length nl (msg_line m) (map msg_line r)).
    assert (0 < String.length (msg_line m)) by (destruct m as [[] c]; simpl; lia). lia. }
  unfold buildA, user_contentA. cbn [body_history body_topic]. rewrite L. split; reflexivity.
Qed.

(** X7: the Ollama error text ["Ollama error <status>: <body>"] renders the
    status in decimal, and reading those digits back gives the status. *)
Theorem ollama_status_decimal :
  forall (st : nat) (txt : string),
    exists d, finishB (UpBNotOk st txt) = ApiErr 500 ("Ollama error " ++ d ++ ": " ++ txt)
              /\ read_nat d = Some st.
Proof. intros st txt. exists (show_nat st). split; [reflexivity | apply read_show_nat]. Qed.

(** X8: every successful answer of either route handler has a non-empty
    content that neither starts nor ends with whitespace, also when the
    model's text is absent. *)
Theorem reply_content_clean :
  (forall t, exists m, finishA (UpAOk t) = ApiOk m /\ msg_speaker m = openai
                       /\ clean_text (msg_content m))
  /\ (forall c, exists m, finishB (UpBOk c) = ApiOk m /\ msg_speaker m = llama
                          /\ clean_text (msg_content m)).
Proof.
  split.
  - intros [t|]; eexists; (split; [reflexivity|]); split; try reflexivity.
    + apply js_or_trim_clean.
    + apply placeholder_clean.
  - intros c; eexists; (split; [reflexivity|]); split; [reflexivity|]. apply js_or_trim_clean.
Qed.

(** *** Controller invariants *)

(** X9: in every reachable state, [turn] is [openai] exactly when the
    history has an even number of messages. *)
Theorem turn_follows_history_parity :
  forall s, reachable s ->
    turn s = (if Nat.even (length (history s)) then openai else llama).
Proof.
  apply reachable_preserves; [| intros s H; now rewrite settle_turn, Controller.settle_history | reflexivity].
  intros s e s' Hs H. destruct e; step_cases Hs; simpl; auto;
    try (unfold startConversation, nextTurn_call; simpl;
         destruct (Nat.ltb 0 (length (history s))); simpl; auto).
  all: destruct (call_result f r); simpl; auto.
  all: rewrite length_app, Nat.add_1_r, Nat.even_succ, <- Nat.negb_even, H.
  all: now destruct (Nat.even (length (history s))).
Qed.

(** X10: in every reachable state, an error message is shown only while
    the debate is not running. *)
Theorem error_implies_stopped :
  forall s, reachable s -> error s <> None -> isRunning s = false.
Proof.
  intros s Hr.
  enough (G : error s = None \/ isRunning s = false)
    by (intros He; destruct G; [contradiction | assumption]).
  revert s Hr. apply (reachable_preserves (fun s => error s = None \/ isRunning s = false));
    [| | now left].
  - intros s e s' Hs H. destruct e; step_cases Hs; simpl; auto;
      try (unfold startConversation, nextTurn_call; simpl; now left).
    destruct (call_result f r); simpl; auto.
  - intros s [H|H]; [left; now rewrite Controller.settle_error|].
    right. destruct (isRunning (settle s)) eqn:E; [|reflexivity].
    rewrite (settle_isRunning _ E) in H. discriminate.
Qed.

(** X11: in every reachable state, the loading indicator is shown only
    while at least one request is pending. *)
Theorem loading_implies_pending :
  forall s, reachable s -> loading s = true -> inflight s <> [].
Proof.
  apply (reachable_preserves (fun s => loading s = true -> inflight s <> []));
    [| intros s H; now rewrite settle_loading, settle_inflight | discriminate].
  intros s e s' Hs H. destruct e; step_cases Hs; simpl; auto.
  4: destruct (call_result f r); simpl; discriminate.
  all: intros _ E; apply app_eq_nil in E as [_ E]; discriminate.
Qed.

Lemma single_flight_step :
  forall s e s', not_enter e = true -> step_raw s e = Some s' -> single_flight s -> single_flight s'.
Proof.
  intros s e s' Hok Hs [Hc [Hf Hm]].
  destruct e; simpl in Hok; try discriminate; step_cases Hs.
  - split; [exact Hc|]. split; assumption.
  - apply andb_prop in G as [G1 _]. apply negb_true_iff in G1.
    destruct Hf as [[Hi _]|[f [_ [Hl _]]]]; [|congruence].
    assert (C := Controller.startConversation_count s Hc). unfold count_inv in C.
    unfold single_flight. rewrite C. split; [reflexivity|].
    unfold startConversation, nextTurn_call in *; simpl in *.
    destruct (Nat.ltb 0 (length (history s))) eqn:L; simpl in *.
    + split; [right; eexists; rewrite Hi; split; [reflexivity|]; split; [reflexivity|]; unfold maxRounds; lia | unfold maxRounds; lia].
    + apply Nat.ltb_ge in L. rewrite Hi.
      split; [right; eexists; split; [reflexivity|]; split; [reflexivity|] | ];
        unfold maxRounds; lia.
  - split; [exact Hc|]. split; assumption.
  - unfold single_flight, reset; simpl. split; [reflexivity|].
    split; [|unfold maxRounds; lia].
    destruct Hf as [[Hi Hl]|[f [Hi [Hl _]]]]; [left; auto | right; exists f; split; [auto|]; split; [auto|]; unfold maxRounds; lia].
  - apply andb_prop in G as [G G3]. apply andb_prop in G as [_ G2].
    apply negb_true_iff in G2. apply Nat.ltb_lt in G3.
    destruct Hf as [[Hi _]|[f [_ [Hl _]]]]; [|congruence].
    unfold single_flight, nextTurn_call; simpl. rewrite Hi.
    split; [exact Hc|]. split; [right; eexists; split; [reflexivity|]; split; [reflexivity|exact G3] | exact Hm].
  - destruct Hf as [[Hi _]|[f0 [Hi [_ Hlt]]]]; [rewrite Hi in N; destruct i; discriminate|].
    rewrite Hi in N |- *. destruct i as [|[|i]]; simpl in N; try discriminate.
    inversion N; subst. unfold single_flight, nextTurn_finish.
    destruct (call_result f r); simpl.
    + rewrite length_app; simpl. split; [lia|]. split; [left; auto | unfold maxRounds in *; lia].
    + split; [exact Hc|]. split; [left; auto | exact Hm].
Qed.

(** X12: in a run without the Enter key (the start button and the timer
    only), at most one request is pending at any time and [roundCount]
    never exceeds [maxRounds]. *)
Theorem no_enter_within_cap :
  forall es s, forallb not_enter es = true -> run init_state es = Some s ->
    roundCount s <= maxRounds /\ length (inflight s) <= 1.
Proof.
  intros es s Hok Hr.
  assert (H : single_flight s).
  { refine (run_preserves single_flight not_enter single_flight_step _ es init_state s Hok Hr _).
    - intros s0 [Hc [Hf Hm]]. unfold single_flight.
      rewrite Controller.settle_roundCount, Controller.settle_history, settle_inflight, settle_loading.
      exact (conj Hc (conj Hf Hm)).
    - split; [reflexivity|]. split; [left; split; reflexivity | cbn; lia]. }
  destruct H as [_ [[[Hi _]|[f [Hi _]]] Hm]]; rewrite Hi; simpl; auto.
Qed.

(** X13: once the debate is stopped, no event other than the start button
    or Enter starts it again or sends a new request; pending requests can
    still complete. *)
Theorem stopped_stays_stopped :
  forall es s s', forallb not_start es = true -> run s es = Some s' ->
    isRunning s = false ->
    isRunning s' = false /\ length (inflight s') <= length (inflight s).
Proof.
  intros es s s' Hok Hr Hs.
  refine (run_preserves (fun x => isRunning x = false /\ length (inflight x) <= length (inflight s))
            not_start _ _ es s s' Hok Hr (conj Hs (le_n _))).
  - intros s0 e s1 He Hs0 [H1 H2]. destruct e; simpl in He; try discriminate; step_cases Hs0;
      simpl; auto.
    + rewrite H1 in G. discriminate.
    + pose proof (length_remove_nth i (inflight s0)).
      destruct (call_result f r); simpl; split; auto; lia.
  - intros s0 [H1 H2]. rewrite Controller.settle_isRunning_false by exact H1. auto.
Qed.

(** *** Export buttons and title *)

(** X14: in every reachable state where the debate has reached
    [maxRounds], the export buttons are shown. *)
Theorem finished_can_export :
  forall s, reachable s -> isFinished s = true -> canExport s = true.
Proof.
  intros s Hr Hf. unfold canExport. rewrite Hf, orb_true_r. simpl.
  rewrite <- (reachable_count s Hr). unfold isFinished, maxRounds in Hf.
  apply Nat.leb_le in Hf. apply Nat.ltb_lt. lia.
Qed.


(** X16: the reset button empties the history, hides the export buttons
    and brings back the idle title with the current topic. *)
Theorem reset_back_to_idle :
  forall s s', step s ClickReset = Some s' ->
    history s' = [] /\ canExport s' = false
    /\ title s' = "Debate LLM vs LLM (" ++ topic s ++ ")".
Proof.
  intros s s' Hs. unfold step, step_raw in Hs.
  destruct (isRunning s); [discriminate|]. inversion Hs; subst.
  rewrite Controller.settle_isRunning_false by reflexivity.
  unfold canExport, title, reset; simpl. auto.
Qed.


(** X18: the effect on [isFinished] and [history.length] never changes
    whether the export buttons are shown. *)
Theorem export_effect_invisible :
  forall s, canExport (export_effect s) = canExport s.
Proof.
  intros s. unfold export_effect, canExport.
  destruct (isFinished s && Nat.ltb 0 (length (history s))) eqn:E; [|reflexivity].
  simpl. apply andb_prop in E as [E1 E2]. rewrite E1, E2, orb_true_r. reflexivity.
Qed.

(** *** Text export *)

(** X19: the TXT export starts with ["Tema: <topic>"] and a blank line,
    and contains the line ["<i+1>. [<LABEL>]: <content>"] of every message
    at index [i] of the history. *)
Theorem txt_export_lines :
  forall (t : string) (h : list ChatMsg) (i : nat) (m : ChatMsg),
    nth_error h i = Some m ->
    exists pre post,
      exportTXT t h = "Tema: " ++ t ++ nl ++ nl ++ pre ++ txt_line i m ++ post.
Proof.
  intros t h i m H.
  destruct (join_in (nl ++ nl) (mapi_from txt_line 0 h) (txt_line i m)) as [pre [post E]].
  { apply nth_error_In with i. exact (mapi_from_nth txt_line h 0 i m H). }
  exists pre, post. unfold exportTXT. rewrite E. reflexivity.
Qed.

(** X20: the TXT export does not determine the history: two different
    histories give the same text, while their JSON exports differ. *)
Theorem txt_export_lossy :
  forall t : string,
    exists h1 h2, h1 <> h2 /\ exportTXT t h1 = exportTXT t h2
                  /\ exportJSON t h1 <> exportJSON t h2.
Proof.
  intros t.
  exists [mkMsg openai ("a" ++ nl ++ nl ++ "2. [LLAMA]: b")], [mkMsg openai "a"; mkMsg llama "b"].
  split; [discriminate|]. split; [reflexivity|].
  intros E. assert (P := f_equal parse_json E). unfold exportJSON, stringify2 in P.
  rewrite !parse_ser in P by reflexivity.
  assert (Q := f_equal (fun o => match o with Some v => session_of_json v | None => None end) P).
  cbv beta iota in Q. rewrite !session_of_to in Q. discriminate.
Qed.

(** X21: the download is named ["debate-<date>.<format>"], where [<date>]
    is the part of the ISO timestamp before its first ["T"]. *)
Theorem export_filename_date :
  forall (d r : string) (f : export_format),
    has_char "T"%char d = false ->
    export_filename (d ++ String "T"%char r) f = "debate-" ++ d ++ "." ++ format_label f.
Proof.
  intros d r f H. unfold export_filename. f_equal. f_equal.
  induction d as [|c d IH]; simpl in *; [reflexivity|].
  apply orb_false_iff in H as [H1 H2]. rewrite H1, (IH H2). reflexivity.
Qed.

End Extras.

(** ** Witnesses *)
Module Witnesses.

(** The spec's example [[{A,"hi"},{B,"hello"}]] for C6. *)
Lemma adapterB_transcript_witness :
  body_history (mkBody (Some spec_history) None) = Some spec_history
  /\ spec_history <> []
  /\ reqB_messages (buildB no_env (mkBody (Some spec_history) None))
     = (mkRole "system" systemB :: map labelled spec_history
        ++ [mkRole "user" "Ahora te toca responder. Continúa la conversación."])%list.
Proof.
  split; [reflexivity|]. split; [discriminate|].
  apply (Adapters.adapterB_transcript_in_order no_env (mkBody (Some spec_history) None) spec_history);
    [reflexivity | discriminate].
Defined.

(** C10 at the state after one start and one answered turn. *)
Lemma roundCount_eq_history_length_witness :
  reachable (state_after [ClickStart; Respond 0 ok_reply])
  /\ roundCount (state_after [ClickStart; Respond 0 ok_reply])
     = length (history (state_after [ClickStart; Respond 0 ok_reply])).
Proof.
  assert (R : reachable (state_after [ClickStart; Respond 0 ok_reply])).
  { exists [ClickStart; Respond 0 ok_reply]. vm_compute. reflexivity. }
  split; [exact R|].
  exact (Controller.roundCount_eq_history_length _ R).
Defined.

(** C3 at the first pending request, answered by an OpenAI failure. *)
Lemma failed_turn_witness :
  exists t s',
    call_result demo_flight demo_fail = CliErr t
    /\ step demo_after_start (Respond 0 demo_fail) = Some s'
    /\ history s' = history demo_after_start /\ error s' = Some t /\ isRunning s' = false.
Proof.
  apply (proj2 (proj2 (proj2 Controller.failed_turn_preserves_history))
           demo_after_start 0 demo_flight demo_fail).
  - vm_compute. reflexivity.
  - exists 500, "500 status code (no body)". reflexivity.
Defined.

End Witnesses.

(** ** Witnesses of the further properties *)
Module ExtraWitnesses.

(** X3 at the first request, answered by an OpenAI failure. *)
Lemma route_error_text_witness :
  route_result (fl_turn demo_flight) (ReplyUp (UpAThrow (Some "500 status code (no body)")) (UpBOk None))
    = Some (ApiErr 500 "500 status code (no body)")
  /\ exists t, call_result demo_flight (ReplyUp (UpAThrow (Some "500 status code (no body)")) (UpBOk None))
                 = CliErr t
               /\ first_char t = Some "{"%char
               /\ parse_json t = Some (JObj [("error", JStr "500 status code (no body)")]).
Proof.
  split; [reflexivity|].
  apply (Extras.route_error_text_is_json demo_flight _ _ 500). reflexivity.
Defined.

(** X4 at the first request, answered normally. *)
Lemma reply_speaker_witness :
  call_result demo_flight ok_reply = CliOk (mkMsg openai "Sí.")
  /\ msg_speaker (mkMsg openai "Sí.") = fl_turn demo_flight.
Proof.
  split; [reflexivity|].
  apply (Extras.reply_speaker_is_endpoint demo_flight ok_reply). reflexivity.
Defined.

(** X6 on the spec's example history. *)
Lemma adapterA_history_prompt_witness :
  spec_history <> []
  /\ user_contentA (mkBody (Some spec_history) (Some "IA"))
     = "Conversación hasta ahora:" ++ nl ++ join nl (map msg_line spec_history) ++ nl ++ nl
       ++ "Ahora te toca hablar. Continúa."
  /\ buildA no_env (mkBody (Some spec_history) (Some "IA"))
     = buildA no_env (mkBody (Some spec_history) None).
Proof.
  split; [discriminate|].
  apply (Extras.adapterA_history_prompt no_env spec_history (Some "IA") None). discriminate.
Defined.

(** X9 after one answered turn. *)
Lemma turn_parity_witness :
  reachable (state_after [ClickStart; Respond 0 ok_reply])
  /\ turn (state_after [ClickStart; Respond 0 ok_reply])
     = (if Nat.even (length (history (state_after [ClickStart; Respond 0 ok_reply])))
        then openai else llama).
Proof.
  assert (R : reachable (state_after [ClickStart; Respond 0 ok_reply])).
  { exists [ClickStart; Respond 0 ok_reply]. vm_compute. reflexivity. }
  split; [exact R|]. exact (Extras.turn_follows_history_parity _ R).
Defined.

(** X10 after a failed first turn. *)
Lemma error_stopped_witness :
  reachable (state_after fail_trace) /\ error (state_after fail_trace) <> None
  /\ isRunning (state_after fail_trace) = false.
Proof.
  assert (R : reachable (state_after fail_trace)).
  { exists fail_trace. vm_compute. reflexivity. }
  assert (E : error (state_after fail_trace) <> None) by (vm_compute; discriminate).
  split; [exact R|]. split; [exact E|]. exact (Extras.error_implies_stopped _ R E).
Defined.

(** X11 right after the first start. *)
Lemma loading_pending_witness :
  reachable (state_after [ClickStart]) /\ loading (state_after [ClickStart]) = true
  /\ inflight (state_after [ClickStart]) <> [].
Proof.
  assert (R : reachable (state_after [ClickStart])).
  { exists [ClickStart]. vm_compute. reflexivity. }
  assert (L : loading (state_after [ClickStart]) = true) by (vm_compute; reflexivity).
  split; [exact R|]. split; [exact L|]. exact (Extras.loading_implies_pending _ R L).
Defined.

(** X12 on a complete debate started with the button. *)
Lemma no_enter_witness :
  forallb not_enter full_trace = true
  /\ run init_state full_trace = Some (state_after full_trace)
  /\ roundCount (state_after full_trace) <= maxRounds
  /\ length (inflight (state_after full_trace)) <= 1.
Proof.
  assert (A : forallb not_enter full_trace = true) by (vm_compute; reflexivity).
  assert (B : run init_state full_trace = Some (state_after full_trace)) by (vm_compute; reflexivity).
  split; [exact A|]. split; [exact B|]. exact (Extras.no_enter_within_cap _ _ A B).
Defined.

(** X13: stop while the first request is pending, then its answer arrives
    and the topic is edited. *)
Lemma stopped_witness :
  forallb not_start [Respond 0 ok_reply; SetTopic "Otro tema"] = true
  /\ run (state_after [ClickStart; ClickStop]) [Respond 0 ok_reply; SetTopic "Otro tema"]
     = Some (state_after [ClickStart; ClickStop; Respond 0 ok_reply; SetTopic "Otro tema"])
  /\ isRunning (state_after [ClickStart; ClickStop]) = false
  /\ isRunning (state_after [ClickStart; ClickStop; Respond 0 ok_reply; SetTopic "Otro tema"]) = false
  /\ length (inflight (state_after [ClickStart; ClickStop; Respond 0 ok_reply; SetTopic "Otro tema"]))
     <= length (inflight (state_after [ClickStart; ClickStop])).
Proof.
  assert (A : forallb not_start [Respond 0 ok_reply; SetTopic "Otro tema"] = true) by reflexivity.
  assert (B : run (state_after [ClickStart; ClickStop]) [Respond 0 ok_reply; SetTopic "Otro tema"]
              = Some (state_after [ClickStart; ClickStop; Respond 0 ok_reply; SetTopic "Otro tema"]))
    by (vm_compute; reflexivity).
  assert (C : isRunning (state_after [ClickStart; ClickStop]) = false) by (vm_compute; reflexivity).
  split; [exact A|]. split; [exact B|]. split; [exact C|].
  exact (Extras.stopped_stays_stopped _ _ _ A B C).
Defined.

(** X14 at the end of a complete debate. *)
Lemma finished_export_witness :
  reachable (state_after full_trace) /\ isFinished (state_after full_trace) = true
  /\ canExport (state_after full_trace) = true.
Proof.
  assert (R : reachable (state_after full_trace)).
  { exists full_trace. vm_compute. reflexivity. }
  assert (F : isFinished (state_after full_trace) = true) by (vm_compute; reflexivity).
  split; [exact R|]. split; [exact F|]. exact (Extras.finished_can_export _ R F).
Defined.


(** X16: reset after stopping a one-turn debate. *)
Lemma reset_idle_witness :
  step (state_after [ClickStart; Respond 0 ok_reply; ClickStop]) ClickReset
    = Some (state_after [ClickStart; Respond 0 ok_reply; ClickStop; ClickReset])
  /\ history (state_after [ClickStart; Respond 0 ok_reply; ClickStop; ClickReset]) = []
  /\ canExport (state_after [ClickStart; Respond 0 ok_reply; ClickStop; ClickReset]) = false
  /\ title (state_after [ClickStart; Respond 0 ok_reply; ClickStop; ClickReset])
     = "Debate LLM vs LLM (" ++ topic (state_after [ClickStart; Respond 0 ok_reply; ClickStop]) ++ ")".
Proof.
  assert (A : step (state_after [ClickStart; Respond 0 ok_reply; ClickStop]) ClickReset
              = Some (state_after [ClickStart; Respond 0 ok_reply; ClickStop; ClickReset]))
    by (vm_compute; reflexivity).
  split; [exact A|]. exact (Extras.reset_back_to_idle _ _ A).
Defined.


(** X19 on the second message of the spec's example history. *)
Lemma txt_export_lines_witness :
  nth_error spec_history 1 = Some (mkMsg llama "hello")
  /\ exists pre post,
       exportTXT "IA" spec_history
       = "Tema: " ++ "IA" ++ nl ++ nl ++ pre ++ txt_line 1 (mkMsg llama "hello") ++ post.
Proof.
  split; [reflexivity|]. apply Extras.txt_export_lines. reflexivity.
Defined.

(** X21 on a timestamp of [toISOString]. *)
Lemma export_filename_witness :
  has_char "T"%char "2026-10-18" = false
  /\ export_filename ("2026-10-18" ++ String "T"%char "10:00:00.000Z") Json
     = "debate-" ++ "2026-10-18" ++ "." ++ format_label Json.
Proof.
  split; [reflexivity|]. apply Extras.export_filename_date. reflexivity.
Defined.

End ExtraWitnesses.
